(** * Article humanizer (app.py): prompt assembly, conversation store and
    turn controller

    A shallow embedding of [src/app.py].  The script is a Streamlit page: it
    is executed top to bottom on every interaction, reads its widgets, calls
    a hosted chat-completion client and mutates
    [st.session_state.chat_history].

    - Python [str] values are sequences of Unicode code points ([pystr]);
      [str.strip] removes the code points Python treats as whitespace.
    - The script is written in a state-and-exception monad over a [World]
      that holds the session state, the state of the remote service and a
      log of the effects in the order the script performs them.  A raised
      exception keeps every mutation made before it, as in Python.
    - The page body is modelled from the point where [GROQ_API_KEY] is set
      (without it the script stops before any widget exists); spinners and
      page decoration have no effect on the store and are left out. *)

From Stdlib Require Import List PeanoNat NArith String Ascii Bool Lia.
Import ListNotations.

Set Implicit Arguments.

(* ------------------------------------------------------------------ *)
(** ** Python strings *)

Module PyStr.

(** A Python [str]: its code points, in order. *)
Definition pystr := list N.

(** An ASCII literal of the source as a [pystr]. *)
Definition lit (s : string) : pystr :=
  List.map N_of_ascii (list_ascii_of_string s).

(** [str.isspace] on one code point (CPython's [_PyUnicode_IsWhitespace]). *)
Definition is_space (c : N) : bool :=
  ((9 <=? c) && (c <=? 13) || (28 <=? c) && (c <=? 32)
   || (c =? 133) || (c =? 160) || (c =? 5760)
   || (8192 <=? c) && (c <=? 8202)
   || (c =? 8232) || (c =? 8233) || (c =? 8239) || (c =? 8287)
   || (c =? 12288))%N.

Fixpoint lstrip (s : pystr) : pystr :=
  match s with
  | [] => []
  | c :: r => if is_space c then lstrip r else s
  end.

Definition rstrip (s : pystr) : pystr := rev (lstrip (rev s)).

(** [s.strip()] *)
Definition strip (s : pystr) : pystr := rstrip (lstrip s).

(** Truth value of a [str] (and of a [list]): non-empty. *)
Definition truthy {A} (s : list A) : bool :=
  match s with [] => false | _ :: _ => true end.

(** [a == b] on two [str] values. *)
Fixpoint pystr_eqb (a b : pystr) : bool :=
  match a, b with
  | [], [] => true
  | x :: a', y :: b' => N.eqb x y && pystr_eqb a' b'
  | _, _ => false
  end.

End PyStr.
Import PyStr.

(* ------------------------------------------------------------------ *)
(** ** Data *)

(** A chat-history entry: the dict [{"role": ..., "content": ...}]. *)
Record Message := mkMessage { role : pystr; content : pystr }.

(** The payload of [llm.invoke]: a list of [(role, content)] tuples. *)
Definition Payload := list (pystr * pystr).

(** What [llm.invoke] returns.  [content_attr] is the [content] attribute
    when the object has one; [str_form] is [str(response)]. *)
Record Response := mkResponse { content_attr : option pystr; str_form : pystr }.

(** Exceptions. *)
Inductive Exn :=
| ClientError (msg : pystr)     (* raised by the client *)
| AttributeError.               (* a missing session-state key *)

(** The effects of a run, in the order the script performs them. *)
Inductive Event :=
| EAppend (m : Message)                      (* chat_history.append(m) *)
| EInvoke (model : pystr) (p : Payload)      (* llm.invoke(p) *)
| EWarning (msg : pystr)                     (* st.warning(msg) *)
| EWrite (who : pystr) (text : pystr).       (* st.chat_message(who).write(text) *)

(** The widget values of one run of the script. *)
Record Inputs := mkInputs {
  model_choice : pystr;          (* st.selectbox *)
  original_text : pystr;         (* st.text_area *)
  polish_clicked : bool;         (* st.button *)
  follow_up : option pystr       (* st.chat_input: None or the submitted text *)
}.

Definition MODEL_CHOICES : list pystr :=
  [ lit "llama-3.3-70b-versatile"; lit "llama-3.1-8b-instant"; lit "mixtral-8x7b-32768" ].

(* ------------------------------------------------------------------ *)
(** ** Prompt assembly (humanize_via_groq, up to the client call) *)

Definition BASE_PROMPT : pystr :=
  lit "Your job is to act as a **professional humanizer and Grammarly-like editor**. "
  ++ lit "Always fix grammar, spelling, and awkward phrasing. "
  ++ lit "Make the text smooth, natural, and engaging while keeping the meaning unchanged. "
  ++ lit "Do not add new facts." ++ [10; 10]%N.

Definition SYSTEM_PROMPT : pystr :=
  lit "You are a skilled editor. You polish articles to sound professional and human-like.".

(** The f-string [f"<U+26A1> Extra instructions: {s}\n\n"]. *)
Definition extra_line (s : pystr) : pystr :=
  [9889%N] ++ lit " Extra instructions: " ++ s ++ [10; 10]%N.

Definition full_prompt (text instructions : pystr) : pystr :=
  let base_prompt := BASE_PROMPT in
  let base_prompt :=
    if truthy (strip instructions)
    then base_prompt ++ extra_line (strip instructions)
    else base_prompt in
  base_prompt ++ text.

Definition assemble (text instructions : pystr) : Payload :=
  [ (lit "system", SYSTEM_PROMPT); (lit "user", full_prompt text instructions) ].

(* ------------------------------------------------------------------ *)
(** ** The script *)

Declare Scope script_scope.
Delimit Scope script_scope with script.

Section Script.

(** The hosted inference service: its state is opaque to the script. *)
Variable Service : Type.

(** [ChatGroq(api_key, model, temperature=0.7).invoke(payload)]: one
    blocking call; it returns a response object or raises. *)
Variable chat_groq : pystr -> Payload -> Service -> (Exn + Response) * Service.

(** [session]: the [chat_history] key of [st.session_state], [None] while
    the key is absent. *)
Record World := mkWorld {
  session : option (list Message);
  service : Service;
  log : list Event
}.

(** The conversation store as a sequence (empty while the key is absent). *)
Definition history (w : World) : list Message :=
  match session w with Some h => h | None => [] end.

(** State and exceptions: a raise keeps the world reached so far. *)
Definition M (A : Type) : Type := World -> (Exn + A) * World.

Definition ret {A} (a : A) : M A := fun w => (inr a, w).

Definition bind {A B} (c : M A) (k : A -> M B) : M B :=
  fun w =>
    match c w with
    | (inr a, w') => k a w'
    | (inl e, w') => (inl e, w')
    end.

Notation "x <- c ;; k" := (bind c (fun x => k))
  (at level 61, c at next level, right associativity) : script_scope.
Notation "c ;; k" := (bind c (fun _ => k))
  (at level 61, right associativity) : script_scope.
Local Open Scope script_scope.

Definition emit (e : Event) : M unit :=
  fun w => (inr tt, mkWorld (session w) (service w) (log w ++ [e])).

(** [if "chat_history" not in st.session_state: ... = []] *)
Definition init_history : M unit :=
  fun w =>
    match session w with
    | Some _ => (inr tt, w)
    | None => (inr tt, mkWorld (Some []) (service w) (log w))
    end.

(** Reading [st.session_state.chat_history]. *)
Definition get_history : M (list Message) :=
  fun w =>
    match session w with
    | Some h => (inr h, w)
    | None => (inl AttributeError, w)
    end.

(** [st.session_state.chat_history.append(m)] *)
Definition append (m : Message) : M unit :=
  fun w =>
    match session w with
    | Some h => (inr tt, mkWorld (Some (h ++ [m])) (service w) (log w ++ [EAppend m]))
    | None => (inl AttributeError, w)
    end.

(** [llm.invoke(p)] for the client of model [model]. *)
Definition invoke (model : pystr) (p : Payload) : M Response :=
  fun w =>
    let (r, s') := chat_groq model p (service w) in
    (r, mkWorld (session w) s' (log w ++ [EInvoke model p])).

Definition get_llm (model_name : pystr) : Payload -> M Response :=
  invoke model_name.

(** [response.content if hasattr(response, "content") else str(response)] *)
Definition reply_text (response : Response) : pystr :=
  match content_attr response with
  | Some c => c
  | None => str_form response
  end.

Definition humanize_via_groq (llm : Payload -> M Response)
    (text instructions : pystr) : M pystr :=
  response <- llm (assemble text instructions) ;;
  ret (reply_text response).

Fixpoint for_each {A} (l : list A) (body : A -> M unit) : M unit :=
  match l with
  | [] => ret tt
  | x :: r => body x ;; for_each r body
  end.

Definition user_msg (c : pystr) : Message := mkMessage (lit "user") c.
Definition assistant_msg (c : pystr) : Message := mkMessage (lit "assistant") c.

(** "First input box (article paste)" *)
Definition initial_block (llm : Payload -> M Response) (inp : Inputs) : M unit :=
  h <- get_history ;;
  if negb (truthy h) then
    if polish_clicked inp then
      if negb (truthy (strip (original_text inp))) then
        emit (EWarning (lit "Please paste your article before running."))
      else
        polished <- humanize_via_groq llm (original_text inp) [] ;;
        append (user_msg (original_text inp)) ;;
        append (assistant_msg polished)
    else ret tt
  else ret tt.

(** "Display chat history" *)
Definition display_block : M unit :=
  h <- get_history ;;
  for_each h (fun chat =>
    if pystr_eqb (role chat) (lit "user")
    then emit (EWrite (lit "user") (content chat))
    else emit (EWrite (lit "assistant") (content chat))).

Definition last_ai_texts (h : list Message) : list pystr :=
  List.map content
    (List.filter (fun m => pystr_eqb (role m) (lit "assistant")) h).

(** [last_ai_texts[-1] if last_ai_texts else follow_up] *)
Definition latest_text (h : list Message) (f : pystr) : pystr :=
  if truthy (last_ai_texts h) then List.last (last_ai_texts h) [] else f.

(** "Follow-up refinements" *)
Definition follow_up_block (llm : Payload -> M Response) (inp : Inputs) : M unit :=
  match follow_up inp with
  | None => ret tt
  | Some f =>
      if truthy f then
        append (user_msg f) ;;
        emit (EWrite (lit "user") f) ;;
        h <- get_history ;;
        polished <- humanize_via_groq llm (latest_text h f) f ;;
        append (assistant_msg polished) ;;
        emit (EWrite (lit "assistant") polished)
      else ret tt
  end.

(** One run of the page. *)
Definition script (inp : Inputs) : M unit :=
  let llm := get_llm (model_choice inp) in
  init_history ;;
  initial_block llm inp ;;
  display_block ;;
  follow_up_block llm inp.

(** A session: the page run once per interaction, until a run raises
    (which is reported; the next interaction runs the page again). *)
Fixpoint session_runs (inps : list Inputs) (w : World) : World :=
  match inps with
  | [] => w
  | inp :: rest => session_runs rest (snd (script inp w))
  end.

End Script.

Arguments lit : simpl never.
Arguments BASE_PROMPT : simpl never.
Arguments SYSTEM_PROMPT : simpl never.

(* ------------------------------------------------------------------ *)
(** ** Vocabulary of the statements *)

(** The chat input returned a text that passes [if follow_up:]. *)
Definition follow_up_submitted (inp : Inputs) : bool :=
  match follow_up inp with
  | Some f => truthy f
  | None => false
  end.

(** What the display loop writes for one stored message. *)
Definition rendered (chat : Message) : Event :=
  if pystr_eqb (role chat) (lit "user")
  then EWrite (lit "user") (content chat)
  else EWrite (lit "assistant") (content chat).

(** The initial-mode turn of this run went through: the button was pressed
    on a non-blank article and the client returned a response. *)
Definition initial_turn_ok {Service : Type}
    (chat_groq : pystr -> Payload -> Service -> (Exn + Response) * Service)
    (inp : Inputs) (w : World Service) : Prop :=
  polish_clicked inp = true
  /\ strip (original_text inp) <> []
  /\ exists r svc',
       chat_groq (model_choice inp) (assemble (original_text inp) []) (service w)
       = (inr r, svc').

(** The store discipline as the state machine of the specification words
    it: every run only appends, a non-empty store stays non-empty, and the
    store leaves the empty state only through an initial-mode turn that
    went through. *)
Definition store_leaves_empty_only_by_initial_turn {Service : Type}
    (chat_groq : pystr -> Payload -> Service -> (Exn + Response) * Service) : Prop :=
  forall (inp : Inputs) (w : World Service),
    let w' := snd (script chat_groq inp w) in
    (exists added, history w' = history w ++ added)
    /\ (history w <> [] -> history w' <> [])
    /\ (history w = [] -> history w' <> [] -> initial_turn_ok chat_groq inp w).

(** The article button pressed on an article that is empty or whitespace
    only, with nothing submitted in the chat input. *)
Definition blank_submission (inp : Inputs) : Prop :=
  polish_clicked inp = true
  /\ strip (original_text inp) = []
  /\ follow_up_submitted inp = false.

Definition BLANK_WARNING : Event :=
  EWarning (lit "Please paste your article before running.").

(** [w'] holds the store of [w] followed by zero or more messages (and its
    key is present). *)
Definition extends {Service : Type} (w w' : World Service) : Prop :=
  session w' <> None /\ exists added, history w' = history w ++ added.

(** A computation that, started with the key present, only appends. *)
Definition grows {Service : Type} {A} (c : M Service A) : Prop :=
  forall w, session w <> None -> extends w (snd (c w)).

(** *** Concrete clients, for running the script *)

Module Demo.

(** A service that counts its calls and always answers [polished]. *)
Definition steady_groq (_ : pystr) (_ : Payload) (n : nat) : (Exn + Response) * nat :=
  (inr (mkResponse (Some (lit "polished")) (lit "<AIMessage>")), S n).

(** A service whose response object has no [content] attribute. *)
Definition bare_groq (_ : pystr) (_ : Payload) (n : nat) : (Exn + Response) * nat :=
  (inr (mkResponse None (lit "<raw response>")), S n).

(** A service that is unreachable: every call raises. *)
Definition down_groq (_ : pystr) (_ : Payload) (n : nat) : (Exn + Response) * nat :=
  (inl (ClientError (lit "connection error")), S n).

Definition model : pystr := lit "llama-3.1-8b-instant".

(** A fresh session. *)
Definition fresh : World nat := mkWorld None 0 [].

(** A session after one completed turn whose reply was [A]. *)
Definition after_A : World nat :=
  mkWorld (Some [user_msg (lit "Hello world."); assistant_msg (lit "A")]) 1 [].

Definition polished : Response :=
  mkResponse (Some (lit "polished")) (lit "<AIMessage>").

(** The article button pressed on [Hello world.]. *)
Definition polish_hello : Inputs := mkInputs model (lit "Hello world.") true None.

(** The article button pressed on three spaces, and on nothing. *)
Definition polish_spaces : Inputs := mkInputs model (lit "   ") true None.
Definition polish_empty : Inputs := mkInputs model [] true None.

(** A follow-up typed in the chat input, the article button not pressed. *)
Definition follow_shorter : Inputs :=
  mkInputs model [] false (Some (lit "make it shorter")).
Definition follow_spaces : Inputs := mkInputs model [] false (Some (lit "   ")).

End Demo.

(* ------------------------------------------------------------------ *)
(** ** Start of the page (load_dotenv, GROQ_API_KEY, get_llm) *)

(** The text of [st.error(...)]; it starts with U+274C. *)
Definition KEY_ERROR : pystr :=
  [10060%N] ++ lit " GROQ_API_KEY not set. Please add it in your .env file.".

(** How one execution of the page ends: stopped by [st.stop()] after the
    error box, run to its last line, or ended by an exception. *)
Inductive PageOutcome :=
| Halted (error : pystr)
| Completed
| Failed (e : Exn).

Section Page.

Variable Service : Type.

(** [ChatGroq(api_key=..., model=..., temperature=0.7).invoke(payload)] *)
Variable ChatGroq : pystr -> pystr -> Payload -> Service -> (Exn + Response) * Service.

(** [os.getenv] once [load_dotenv()] has run. *)
Variable getenv : pystr -> option pystr.

Definition GROQ_API_KEY : option pystr := getenv (lit "GROQ_API_KEY").

(** Truth value of [GROQ_API_KEY]: [None] and the empty string are false. *)
Definition key_set (k : option pystr) : bool :=
  match k with
  | Some s => truthy s
  | None => false
  end.

(** The whole file, top to bottom: the key check, then the page body with
    the clients of [get_llm] bound to the key. *)
Definition page (inp : Inputs) (w : World Service) : PageOutcome * World Service :=
  if negb (key_set GROQ_API_KEY) then
    (Halted KEY_ERROR, w)
  else
    let api_key := match GROQ_API_KEY with Some k => k | None => [] end in
    match script (ChatGroq api_key) inp w with
    | (inr _, w') => (Completed, w')
    | (inl e, w') => (Failed e, w')
    end.

End Page.

(* ------------------------------------------------------------------ *)
(** ** Vocabulary of the store invariants *)

(** The role of a stored message is one of the two the page writes. *)
Definition well_roled (m : Message) : Prop :=
  role m = lit "user" \/ role m = lit "assistant".

(** Every assistant message comes directly after a user message. *)
Definition replies_follow_user (h : list Message) : Prop :=
  forall i m,
    nth_error h i = Some m -> role m = lit "assistant" ->
    exists j u, i = S j /\ nth_error h j = Some u /\ role u = lit "user".

(** The store made of the given (user text, reply) exchanges. *)
Definition exchanges (pairs : list (pystr * pystr)) : list Message :=
  flat_map (fun qa => [user_msg (fst qa); assistant_msg (snd qa)]) pairs.

(** A client that never raises. *)
Definition reliable {Service : Type}
    (chat_groq : pystr -> Payload -> Service -> (Exn + Response) * Service) : Prop :=
  forall model p s, exists r s', chat_groq model p s = (inr r, s').

(** The exception [e] is one the client raised on some call. *)
Definition client_raised {Service : Type}
    (chat_groq : pystr -> Payload -> Service -> (Exn + Response) * Service)
    (e : Exn) : Prop :=
  exists model p s s', chat_groq model p s = (inl e, s').

(** A run in which no widget fired (a rerun for a changed model choice,
    say). *)
Definition idle (inp : Inputs) : Prop :=
  polish_clicked inp = false /\ follow_up_submitted inp = false.

Module Scenario.

(** A service whose first call raises and whose later calls answer. *)
Definition flaky_groq (_ : pystr) (_ : Payload) (n : nat) : (Exn + Response) * nat :=
  match n with
  | 0 => (inl (ClientError (lit "timeout")), 1)
  | S _ => (inr (mkResponse (Some (lit "polished")) (lit "<AIMessage>")), S n)
  end.

(** A keyed client: it answers only the key [gsk]. *)
Definition keyed_groq (key : pystr) (_ : pystr) (_ : Payload) (n : nat)
    : (Exn + Response) * nat :=
  if pystr_eqb key (lit "gsk")
  then (inr (mkResponse (Some (lit "polished")) (lit "<AIMessage>")), S n)
  else (inl (ClientError (lit "invalid api key")), S n).

Definition no_env (_ : pystr) : option pystr := None.

Definition env_with_key (name : pystr) : option pystr :=
  if pystr_eqb name (lit "GROQ_API_KEY") then Some (lit "gsk") else None.

(** A rerun caused by picking another model. *)
Definition pick_model : Inputs := mkInputs (lit "mixtral-8x7b-32768") [] false None.

(** A stale click on the article button together with a follow-up. *)
Definition stale_click : Inputs :=
  mkInputs Demo.model (lit "Another article") true (Some (lit "make it shorter")).

Definition follow_longer : Inputs :=
  mkInputs Demo.model [] false (Some (lit "make it longer")).

(** A session holding one exchange, with the service about to fail once. *)
Definition before_outage : World nat :=
  mkWorld (Some [user_msg (lit "Hello world."); assistant_msg (lit "A")]) 0 [].

End Scenario.

(* ------------------------------------------------------------------ *)
(** ** Strings and the assembled prompt *)

Lemma truthy_true {A} (l : list A) : truthy l = true <-> l <> [].
Proof. destruct l; simpl; split; congruence. Qed.

Lemma truthy_false {A} (l : list A) : truthy l = false <-> l = [].
Proof. destruct l; simpl; split; congruence. Qed.

Lemma lstrip_blank (s : pystr) : forallb is_space s = true -> lstrip s = [].
Proof.
  induction s as [|c r IH]; simpl; [reflexivity|].
  intros H. apply andb_true_iff in H as [Hc Hr]. rewrite Hc. auto.
Qed.

Lemma strip_blank (s : pystr) : forallb is_space s = true -> strip s = [].
Proof. intros H. unfold strip, rstrip. rewrite (lstrip_blank s H). reflexivity. Qed.

Lemma lstrip_nil_blank (s : pystr) : lstrip s = [] -> forallb is_space s = true.
Proof.
  induction s as [|c r IH]; simpl; [reflexivity|].
  destruct (is_space c); simpl; [exact IH | discriminate].
Qed.

(** A text strips to nothing exactly when all of it is whitespace. *)
Lemma strip_nil_iff (s : pystr) : strip s = [] <-> forallb is_space s = true.
Proof.
  split; [|apply strip_blank].
  unfold strip, rstrip. intros H.
  assert (Hl : lstrip (rev (lstrip s)) = []).
  { destruct (lstrip (rev (lstrip s))) as [|c l]; [reflexivity|].
    simpl in H. apply app_eq_nil in H as [_ H]. discriminate. }
  apply lstrip_nil_blank in Hl.
  assert (Hs : forallb is_space (lstrip s) = true).
  { rewrite forallb_forall in *. intros x Hx. apply Hl, in_rev.
    rewrite rev_involutive. exact Hx. }
  clear H Hl. induction s as [|c r IH]; simpl in *; [reflexivity|].
  destruct (is_space c) eqn:Hc; simpl; [auto|].
  simpl in Hs. rewrite Hc in Hs. discriminate.
Qed.

Lemma extra_line_not_nil (s : pystr) : extra_line s <> [].
Proof. unfold extra_line. simpl. discriminate. Qed.

(** C4.  For every text [t] and instructions [i] the user message sent to
    the client is the fixed base block, then a block that is the delimited
    line echoing [i.strip()] when [i.strip()] is non-empty and is absent
    (empty) otherwise, then [t] itself, last and unchanged.  The block is
    empty if and only if [i] strips to nothing; with [i = ""] what follows
    the base block is exactly [t]. *)
Theorem assemble_shape (t i : pystr) :
  exists block : pystr,
    assemble t i =
      [ (lit "system", SYSTEM_PROMPT); (lit "user", BASE_PROMPT ++ block ++ t) ]
    /\ block =
         (if truthy (strip i)
          then [9889%N] ++ lit " Extra instructions: " ++ strip i ++ [10; 10]%N
          else [])
    /\ (block = [] <-> strip i = [])
    /\ List.skipn (List.length BASE_PROMPT) (full_prompt t []) = t.
Proof.
  exists (if truthy (strip i) then extra_line (strip i) else []).
  split; [|split; [|split]].
  - unfold assemble, full_prompt.
    destruct (truthy (strip i)); simpl; rewrite <- ?app_assoc; reflexivity.
  - reflexivity.
  - split.
    + destruct (truthy (strip i)) eqn:E; intros H.
      * exfalso. exact (extra_line_not_nil H).
      * apply truthy_false. exact E.
    + intros H. rewrite H. reflexivity.
  - unfold full_prompt. change (strip []) with (@nil N). simpl truthy. cbv iota.
    generalize BASE_PROMPT. intros b. induction b; simpl; auto.
Qed.

(** C5.  For every text [t], empty instructions and whitespace-only
    instructions (three spaces, and any other text made of whitespace only)
    give the same payload: the user message is the base block followed by
    [t], with no instructions block. *)
Theorem blank_instructions_same_prompt (t : pystr) :
  assemble t [] = assemble t (lit "   ")
  /\ (forall i, forallb is_space i = true -> assemble t i = assemble t [])
  /\ full_prompt t (lit "   ") = BASE_PROMPT ++ t.
Proof.
  assert (G : forall i, forallb is_space i = true -> assemble t i = assemble t []).
  { intros i H. unfold assemble, full_prompt.
    rewrite (strip_blank i H). reflexivity. }
  split; [|split].
  - symmetry. apply G. reflexivity.
  - exact G.
  - unfold full_prompt. rewrite (strip_blank (lit "   ")); reflexivity.
Qed.

(* ------------------------------------------------------------------ *)
(** ** The latest assistant text *)

Lemma pystr_eqb_eq (a b : pystr) : pystr_eqb a b = true <-> a = b.
Proof.
  revert b. induction a as [|x a IH]; intros [|y b]; simpl; split;
    try congruence; try reflexivity.
  - intros H. apply andb_true_iff in H as [Hx Hr].
    apply N.eqb_eq in Hx. apply IH in Hr. congruence.
  - intros H. injection H as -> ->. rewrite N.eqb_refl. simpl. apply IH. reflexivity.
Qed.

Lemma pystr_eqb_neq (a b : pystr) : a <> b -> pystr_eqb a b = false.
Proof.
  intros H. destruct (pystr_eqb a b) eqn:E; [|reflexivity].
  apply pystr_eqb_eq in E. contradiction.
Qed.

Lemma last_ai_texts_app (h1 h2 : list Message) :
  last_ai_texts (h1 ++ h2) = last_ai_texts h1 ++ last_ai_texts h2.
Proof. unfold last_ai_texts. rewrite filter_app, map_app. reflexivity. Qed.

Lemma last_ai_texts_none (h : list Message) :
  Forall (fun m => role m <> lit "assistant") h -> last_ai_texts h = [].
Proof.
  induction 1 as [|m h Hm _ IH]; [reflexivity|].
  unfold last_ai_texts in *. simpl. rewrite (pystr_eqb_neq Hm). exact IH.
Qed.

Lemma last_ai_texts_user (f : pystr) : last_ai_texts [user_msg f] = [].
Proof. reflexivity. Qed.

Lemma last_ai_texts_assistant (a : pystr) : last_ai_texts [assistant_msg a] = [a].
Proof. reflexivity. Qed.

(** The follow-up just appended is a user message: it does not change
    which text is the latest assistant text. *)
Lemma latest_text_user (h : list Message) (f : pystr) :
  latest_text (h ++ [user_msg f]) f = latest_text h f.
Proof.
  unfold latest_text. rewrite last_ai_texts_app, last_ai_texts_user, app_nil_r.
  reflexivity.
Qed.

Lemma latest_text_recent (pre post : list Message) (a f : pystr) :
  Forall (fun m => role m <> lit "assistant") post ->
  latest_text (pre ++ assistant_msg a :: post) f = a.
Proof.
  intros H. unfold latest_text.
  change (assistant_msg a :: post) with ([assistant_msg a] ++ post).
  rewrite !last_ai_texts_app, (last_ai_texts_none H), last_ai_texts_assistant, app_nil_r.
  rewrite last_last.
  destruct (last_ai_texts pre); reflexivity.
Qed.

Lemma latest_text_fallback (h : list Message) (f : pystr) :
  Forall (fun m => role m <> lit "assistant") h -> latest_text h f = f.
Proof. intros H. unfold latest_text. rewrite (last_ai_texts_none H). reflexivity. Qed.

(* ------------------------------------------------------------------ *)
(** ** Runs of the blocks *)

Unset Implicit Arguments.

Section Runs.

Variable Service : Type.
Variable chat_groq : pystr -> Payload -> Service -> (Exn + Response) * Service.

Implicit Types (w : World Service) (h : list Message) (lg : list Event).

Lemma bind_inr {A B} (c : M Service A) (k : A -> M Service B) w a w' :
  c w = (inr a, w') -> bind c k w = k a w'.
Proof. intros H. unfold bind. rewrite H. reflexivity. Qed.

Lemma bind_inl {A B} (c : M Service A) (k : A -> M Service B) w e w' :
  c w = (inl e, w') -> bind c k w = (inl e, w').
Proof. intros H. unfold bind. rewrite H. reflexivity. Qed.

Lemma init_run w :
  init_history (Service:=Service) w = (inr tt, mkWorld (Some (history w)) (service w) (log w)).
Proof. destruct w as [[h|] svc lg]; reflexivity. Qed.

Lemma for_each_emit (g : Message -> Event) h (s : option (list Message)) svc lg :
  for_each (Service:=Service) h (fun chat => emit (g chat)) (mkWorld s svc lg)
  = (inr tt, mkWorld s svc (lg ++ List.map g h)).
Proof.
  revert lg. induction h as [|m h IH]; intros lg; simpl.
  - rewrite app_nil_r. reflexivity.
  - unfold bind, emit at 1. simpl. rewrite IH, <- app_assoc. reflexivity.
Qed.

Lemma for_each_ext {A} (l : list A) (f g : A -> M Service unit) :
  (forall x w, f x w = g x w) -> forall w, for_each l f w = for_each l g w.
Proof.
  intros E. induction l as [|x l IH]; intros w; simpl; [reflexivity|].
  unfold bind. rewrite E. destruct (g x w) as [[e|[]] w']; auto.
Qed.

Lemma display_run h svc lg :
  display_block (Service:=Service) (mkWorld (Some h) svc lg)
  = (inr tt, mkWorld (Some h) svc (lg ++ List.map rendered h)).
Proof.
  unfold display_block. unfold bind at 1. unfold get_history. simpl.
  rewrite <- (for_each_emit rendered h (Some h) svc lg).
  apply for_each_ext. intros m w. unfold rendered.
  destruct (pystr_eqb (role m) (lit "user")); reflexivity.
Qed.

(** The article box is not shown, or its button was not pressed. *)
Lemma initial_idle llm inp h svc lg :
  h <> [] \/ polish_clicked inp = false ->
  initial_block (Service:=Service) llm inp (mkWorld (Some h) svc lg)
  = (inr tt, mkWorld (Some h) svc lg).
Proof.
  intros H. unfold initial_block, bind, get_history. simpl.
  destruct h as [|m h]; simpl; [|reflexivity].
  destruct H as [H|H]; [congruence|]. rewrite H. reflexivity.
Qed.

Lemma initial_blank llm inp svc lg :
  polish_clicked inp = true -> strip (original_text inp) = [] ->
  initial_block (Service:=Service) llm inp (mkWorld (Some []) svc lg)
  = (inr tt, mkWorld (Some []) svc
               (lg ++ [EWarning (lit "Please paste your article before running.")])).
Proof.
  intros Hc Hs. unfold initial_block, bind, get_history. simpl.
  rewrite Hc, Hs. reflexivity.
Qed.

Lemma humanize_run model text instructions w res svc' :
  chat_groq model (assemble text instructions) (service w) = (res, svc') ->
  humanize_via_groq (get_llm chat_groq model) text instructions w
  = (match res with inr r => inr (reply_text r) | inl e => inl e end,
     mkWorld (session w) svc' (log w ++ [EInvoke model (assemble text instructions)])).
Proof.
  intros H. unfold humanize_via_groq, bind, get_llm, invoke. rewrite H.
  destruct res; reflexivity.
Qed.

Lemma initial_polish inp svc lg res svc' :
  polish_clicked inp = true -> strip (original_text inp) <> [] ->
  chat_groq (model_choice inp) (assemble (original_text inp) []) svc = (res, svc') ->
  initial_block (Service:=Service) (get_llm chat_groq (model_choice inp)) inp (mkWorld (Some []) svc lg)
  = match res with
    | inr r =>
        (inr tt,
         mkWorld (Some [user_msg (original_text inp); assistant_msg (reply_text r)]) svc'
           (lg ++ [EInvoke (model_choice inp) (assemble (original_text inp) []);
                   EAppend (user_msg (original_text inp));
                   EAppend (assistant_msg (reply_text r))]))
    | inl e =>
        (inl e,
         mkWorld (Some []) svc'
           (lg ++ [EInvoke (model_choice inp) (assemble (original_text inp) [])]))
    end.
Proof.
  intros Hc Hs Hg. apply truthy_true in Hs.
  unfold initial_block. unfold bind at 1. unfold get_history. simpl.
  rewrite Hc, Hs. simpl. unfold bind at 1.
  rewrite (humanize_run _ _ _ (mkWorld (Some []) svc lg) _ _ Hg).
  destruct res as [e|r]; [reflexivity|].
  unfold bind, append. simpl. rewrite <- !app_assoc. reflexivity.
Qed.

Lemma follow_up_idle llm inp w :
  follow_up_submitted inp = false -> follow_up_block (Service:=Service) llm inp w = (inr tt, w).
Proof.
  unfold follow_up_submitted, follow_up_block.
  destruct (follow_up inp) as [f|]; [|reflexivity].
  intros ->. reflexivity.
Qed.

Lemma follow_up_run inp f h svc lg res svc' :
  follow_up inp = Some f -> f <> [] ->
  chat_groq (model_choice inp) (assemble (latest_text h f) f) svc = (res, svc') ->
  follow_up_block (Service:=Service) (get_llm chat_groq (model_choice inp)) inp (mkWorld (Some h) svc lg)
  = match res with
    | inr r =>
        (inr tt,
         mkWorld (Some (h ++ [user_msg f; assistant_msg (reply_text r)])) svc'
           (lg ++ [EAppend (user_msg f); EWrite (lit "user") f;
                   EInvoke (model_choice inp) (assemble (latest_text h f) f);
                   EAppend (assistant_msg (reply_text r));
                   EWrite (lit "assistant") (reply_text r)]))
    | inl e =>
        (inl e,
         mkWorld (Some (h ++ [user_msg f])) svc'
           (lg ++ [EAppend (user_msg f); EWrite (lit "user") f;
                   EInvoke (model_choice inp) (assemble (latest_text h f) f)]))
    end.
Proof.
  intros Hf Hne Hg. apply truthy_true in Hne.
  unfold follow_up_block. rewrite Hf, Hne.
  unfold bind at 1. unfold append at 1. simpl.
  unfold bind at 1. unfold emit at 1. simpl.
  unfold bind at 1. unfold get_history. simpl.
  unfold bind at 1.
  rewrite (@humanize_run (model_choice inp) (latest_text (h ++ [user_msg f]) f) f
             (mkWorld (Some (h ++ [user_msg f])) svc
                ((lg ++ [EAppend (user_msg f)]) ++ [EWrite (lit "user") f])) res svc').
  2:{ simpl. rewrite latest_text_user. exact Hg. }
  rewrite latest_text_user.
  destruct res as [e|r]; simpl.
  - rewrite <- !app_assoc. reflexivity.
  - unfold bind, append, emit. simpl. rewrite <- !app_assoc. reflexivity.
Qed.

(** *** Whole runs of the page *)

(** The run up to the follow-up block, when the article box is idle. *)
Lemma script_refinement inp w :
  history w <> [] \/ polish_clicked inp = false ->
  script chat_groq inp w
  = follow_up_block (get_llm chat_groq (model_choice inp)) inp
      (mkWorld (Some (history w)) (service w)
         (log w ++ List.map rendered (history w))).
Proof.
  intros H. unfold script. cbv zeta.
  rewrite (bind_inr _ _ _ _ _ (init_run w)).
  rewrite (bind_inr _ _ _ _ _ (initial_idle _ inp (history w) (service w) (log w) H)).
  rewrite (bind_inr _ _ _ _ _ (display_run (history w) (service w) (log w))).
  reflexivity.
Qed.

(** A run whose follow-up block has something to do. *)
Lemma script_follow_up inp w f res svc' :
  history w <> [] \/ polish_clicked inp = false ->
  follow_up inp = Some f -> f <> [] ->
  chat_groq (model_choice inp) (assemble (latest_text (history w) f) f) (service w)
  = (res, svc') ->
  script chat_groq inp w
  = match res with
    | inr r =>
        (inr tt,
         mkWorld (Some (history w ++ [user_msg f; assistant_msg (reply_text r)])) svc'
           (log w ++ List.map rendered (history w)
              ++ [EAppend (user_msg f); EWrite (lit "user") f;
                  EInvoke (model_choice inp) (assemble (latest_text (history w) f) f);
                  EAppend (assistant_msg (reply_text r));
                  EWrite (lit "assistant") (reply_text r)]))
    | inl e =>
        (inl e,
         mkWorld (Some (history w ++ [user_msg f])) svc'
           (log w ++ List.map rendered (history w)
              ++ [EAppend (user_msg f); EWrite (lit "user") f;
                  EInvoke (model_choice inp) (assemble (latest_text (history w) f) f)]))
    end.
Proof.
  intros Hi Hf Hne Hg. rewrite (script_refinement inp w Hi).
  rewrite (follow_up_run inp f (history w) (service w) _ res svc' Hf Hne Hg).
  destruct res; rewrite <- !app_assoc; reflexivity.
Qed.

(** A run whose article button was pressed on a non-blank article, with
    nothing submitted in the chat input. *)
Lemma script_initial inp w res svc' :
  history w = [] ->
  polish_clicked inp = true -> strip (original_text inp) <> [] ->
  follow_up_submitted inp = false ->
  chat_groq (model_choice inp) (assemble (original_text inp) []) (service w)
  = (res, svc') ->
  script chat_groq inp w
  = match res with
    | inr r =>
        (inr tt,
         mkWorld (Some [user_msg (original_text inp); assistant_msg (reply_text r)]) svc'
           (log w ++ [EInvoke (model_choice inp) (assemble (original_text inp) []);
                      EAppend (user_msg (original_text inp));
                      EAppend (assistant_msg (reply_text r));
                      EWrite (lit "user") (original_text inp);
                      EWrite (lit "assistant") (reply_text r)]))
    | inl e =>
        (inl e,
         mkWorld (Some []) svc'
           (log w ++ [EInvoke (model_choice inp) (assemble (original_text inp) [])]))
    end.
Proof.
  intros Hh Hc Hs Hn Hg. unfold script. cbv zeta.
  rewrite (bind_inr _ _ _ _ _ (init_run w)). rewrite Hh.
  pose proof (initial_polish inp (service w) (log w) res svc' Hc Hs Hg) as Hi.
  destruct res as [e|r].
  - rewrite (bind_inl _ _ _ _ _ Hi). reflexivity.
  - rewrite (bind_inr _ _ _ _ _ Hi).
    rewrite (bind_inr _ _ _ _ _ (display_run _ _ _)).
    rewrite (follow_up_idle _ _ _ Hn).
    rewrite <- app_assoc. reflexivity.
Qed.

(** The article button pressed on a blank article. *)
Lemma script_blank inp w :
  history w = [] ->
  polish_clicked inp = true -> strip (original_text inp) = [] ->
  follow_up_submitted inp = false ->
  script chat_groq inp w
  = (inr tt,
     mkWorld (Some []) (service w)
       (log w ++ [EWarning (lit "Please paste your article before running.")])).
Proof.
  intros Hh Hc Hs Hn. unfold script. cbv zeta.
  rewrite (bind_inr _ _ _ _ _ (init_run w)). rewrite Hh.
  rewrite (bind_inr _ _ _ _ _ (initial_blank _ inp (service w) (log w) Hc Hs)).
  rewrite (bind_inr _ _ _ _ _ (display_run _ _ _)).
  rewrite (follow_up_idle _ _ _ Hn). simpl. rewrite app_nil_r. reflexivity.
Qed.

(** *** The store only grows *)

Lemma extends_refl w : session w <> None -> extends w w.
Proof. intros H. split; [exact H|]. exists []. rewrite app_nil_r. reflexivity. Qed.

Lemma extends_trans w1 w2 w3 : extends w1 w2 -> extends w2 w3 -> extends w1 w3.
Proof.
  intros [_ [a1 H1]] [N3 [a2 H2]]. split; [exact N3|].
  exists (a1 ++ a2). rewrite H2, H1, app_assoc. reflexivity.
Qed.

Lemma grows_ret {A} (a : A) : grows (ret (Service:=Service) a).
Proof. intros w H. apply extends_refl, H. Qed.

Lemma grows_bind {A B} (c : M Service A) (k : A -> M Service B) :
  grows c -> (forall a, grows (k a)) -> grows (bind c k).
Proof.
  intros Hc Hk w H. unfold bind. specialize (Hc w H).
  destruct (c w) as [[e|a] w1]; simpl in *; [exact Hc|].
  eapply extends_trans; [exact Hc|]. apply Hk. apply Hc.
Qed.

Lemma grows_emit e : grows (emit (Service:=Service) e).
Proof. intros w H. split; [exact H|]. exists []. simpl. rewrite app_nil_r. reflexivity. Qed.

Lemma grows_get : grows (get_history (Service:=Service)).
Proof.
  intros w H. unfold get_history.
  destruct (session w) eqn:E; simpl; apply extends_refl; rewrite E; exact H.
Qed.

Lemma grows_append m : grows (append (Service:=Service) m).
Proof.
  intros w H. unfold append, extends, history.
  destruct (session w) as [h|] eqn:E; simpl.
  - split; [discriminate|]. exists [m]. reflexivity.
  - contradiction.
Qed.

Lemma grows_invoke model p : grows (invoke chat_groq model p).
Proof.
  intros w H. unfold invoke.
  destruct (chat_groq model p (service w)) as [r s']. simpl.
  split; [exact H|]. exists []. unfold history. simpl. rewrite app_nil_r. reflexivity.
Qed.

Lemma grows_humanize model text instructions :
  grows (humanize_via_groq (get_llm chat_groq model) text instructions).
Proof.
  unfold humanize_via_groq. apply grows_bind; [apply grows_invoke|].
  intros r. apply grows_ret.
Qed.

Lemma grows_for_each {A} (l : list A) (body : A -> M Service unit) :
  (forall x, grows (body x)) -> grows (for_each l body).
Proof.
  intros Hb. induction l as [|x l IH]; simpl; [apply grows_ret|].
  apply grows_bind; [apply Hb | intros _; exact IH].
Qed.

Lemma grows_initial inp :
  grows (initial_block (get_llm chat_groq (model_choice inp)) inp).
Proof.
  unfold initial_block. apply grows_bind; [apply grows_get|]. intros h.
  destruct (negb (truthy h)); [|apply grows_ret].
  destruct (polish_clicked inp); [|apply grows_ret].
  destruct (negb (truthy (strip (original_text inp)))); [apply grows_emit|].
  apply grows_bind; [apply grows_humanize|]. intros polished.
  apply grows_bind; [apply grows_append|]. intros _. apply grows_append.
Qed.

Lemma grows_display : grows (display_block (Service:=Service)).
Proof.
  unfold display_block. apply grows_bind; [apply grows_get|]. intros h.
  apply grows_for_each. intros chat.
  destruct (pystr_eqb (role chat) (lit "user")); apply grows_emit.
Qed.

Lemma grows_follow_up inp :
  grows (follow_up_block (get_llm chat_groq (model_choice inp)) inp).
Proof.
  unfold follow_up_block. destruct (follow_up inp) as [f|]; [|apply grows_ret].
  destruct (truthy f); [|apply grows_ret].
  apply grows_bind; [apply grows_append|]. intros _.
  apply grows_bind; [apply grows_emit|]. intros _.
  apply grows_bind; [apply grows_get|]. intros h.
  apply grows_bind; [apply grows_humanize|]. intros polished.
  apply grows_bind; [apply grows_append|]. intros _. apply grows_emit.
Qed.

(** Every run, whatever its inputs and whatever the client does, leaves
    the key present and the earlier messages in place. *)
Lemma script_extends inp w : extends w (snd (script chat_groq inp w)).
Proof.
  unfold script. cbv zeta.
  rewrite (bind_inr _ _ _ _ _ (init_run w)).
  set (w1 := mkWorld (Some (history w)) (service w) (log w)).
  assert (H1 : extends w w1).
  { split; [discriminate|]. exists []. simpl. rewrite app_nil_r. reflexivity. }
  eapply extends_trans; [exact H1|].
  assert (G : grows (bind (initial_block (get_llm chat_groq (model_choice inp)) inp)
                      (fun _ => bind (display_block (Service:=Service))
                        (fun _ => follow_up_block
                                    (get_llm chat_groq (model_choice inp)) inp)))).
  { apply grows_bind; [apply grows_initial|]. intros _.
    apply grows_bind; [apply grows_display|]. intros _. apply grows_follow_up. }
  apply G. discriminate.
Qed.

Lemma session_runs_extends inps w :
  exists added, history (session_runs chat_groq inps w) = history w ++ added.
Proof.
  revert w. induction inps as [|inp inps IH]; intros w; simpl.
  - exists []. rewrite app_nil_r. reflexivity.
  - destruct (IH (snd (script chat_groq inp w))) as [a2 H2].
    destruct (script_extends inp w) as [_ [a1 H1]].
    exists (a1 ++ a2). rewrite H2, H1, app_assoc. reflexivity.
Qed.

(** *** The turn controller *)

(** C1.  Refinement mode.  The store holds an assistant message with
    content [a] and no assistant message after it; a non-empty follow-up
    [f] is submitted.  Then the run calls the client once, with the prompt
    assembled from text [a] and instructions [f].  The user message for
    [f] is appended before that call: it is in the store also when the
    call raises.  When the call returns, the store has grown by exactly
    two entries, the user follow-up and then the assistant message with
    the text of the response. *)
Theorem refinement_turn inp w pre post a f res svc' :
  history w = pre ++ assistant_msg a :: post ->
  Forall (fun m => role m <> lit "assistant") post ->
  follow_up inp = Some f -> f <> [] ->
  chat_groq (model_choice inp) (assemble a f) (service w) = (res, svc') ->
  script chat_groq inp w
  = match res with
    | inr r =>
        (inr tt,
         mkWorld (Some (history w ++ [user_msg f; assistant_msg (reply_text r)])) svc'
           (log w ++ List.map rendered (history w)
              ++ [EAppend (user_msg f); EWrite (lit "user") f;
                  EInvoke (model_choice inp) (assemble a f);
                  EAppend (assistant_msg (reply_text r));
                  EWrite (lit "assistant") (reply_text r)]))
    | inl e =>
        (inl e,
         mkWorld (Some (history w ++ [user_msg f])) svc'
           (log w ++ List.map rendered (history w)
              ++ [EAppend (user_msg f); EWrite (lit "user") f;
                  EInvoke (model_choice inp) (assemble a f)]))
    end.
Proof.
  intros Hh Hpost Hf Hne Hg.
  assert (Hl : latest_text (history w) f = a).
  { rewrite Hh. apply latest_text_recent, Hpost. }
  assert (Hi : history w <> [] \/ polish_clicked inp = false).
  { left. rewrite Hh. destruct pre; discriminate. }
  rewrite <- Hl in Hg |- *.
  exact (script_follow_up inp w f res svc' Hi Hf Hne Hg).
Qed.

(** C2.  Initial mode.  The store is empty, the button is pressed on an
    article whose trimmed value is non-empty, and the client returns a
    response.  Then the client was called with the prompt assembled from
    that article and empty instructions, and the store has length 2:
    entry 0 is the user message with the article text as typed, entry 1
    the assistant message with the text of the response. *)
Theorem initial_turn inp w r svc' :
  history w = [] ->
  polish_clicked inp = true -> strip (original_text inp) <> [] ->
  follow_up_submitted inp = false ->
  chat_groq (model_choice inp) (assemble (original_text inp) []) (service w)
  = (inr r, svc') ->
  script chat_groq inp w
  = (inr tt,
     mkWorld (Some [user_msg (original_text inp); assistant_msg (reply_text r)]) svc'
       (log w ++ [EInvoke (model_choice inp) (assemble (original_text inp) []);
                  EAppend (user_msg (original_text inp));
                  EAppend (assistant_msg (reply_text r));
                  EWrite (lit "user") (original_text inp);
                  EWrite (lit "assistant") (reply_text r)])).
Proof.
  intros Hh Hc Hs Hn Hg.
  exact (script_initial inp w (inr r) svc' Hh Hc Hs Hn Hg).
Qed.

(** C3.  Initial mode.  Starting from an empty store, any sequence of
    submissions of articles that are empty or whitespace-only after
    trimming leaves the store empty and the service untouched: each run
    only shows the warning, calls the client never and appends nothing. *)
Theorem blank_article_rejected inps w :
  history w = [] ->
  Forall blank_submission inps ->
  let w' := session_runs chat_groq inps w in
  history w' = []
  /\ service w' = service w
  /\ log w' = log w ++ repeat BLANK_WARNING (List.length inps)
  /\ (forall inp, blank_submission inp ->
       script chat_groq inp w
       = (inr tt, mkWorld (Some []) (service w) (log w ++ [BLANK_WARNING]))).
Proof.
  intros Hh Hall. cbv zeta. split; [|split; [|split]].
  4:{ intros inp (Hc & Hs & Hn). exact (script_blank inp w Hh Hc Hs Hn). }
  all: revert w Hh; induction Hall as [|inp inps (Hc & Hs & Hn) _ IH]; intros w Hh;
    simpl; try rewrite app_nil_r; auto;
    rewrite (script_blank inp w Hh Hc Hs Hn); simpl.
  - apply IH. reflexivity.
  - rewrite IH; reflexivity.
  - rewrite IH by reflexivity. simpl. rewrite <- app_assoc. reflexivity.
Qed.

(** C6.  Refinement with no assistant message in the store (the empty
    store included): the latest text falls back to the follow-up itself,
    so the client is called with the prompt assembled from text [f] and
    instructions [f]. *)
Theorem refinement_fallback inp w f res svc' :
  Forall (fun m => role m <> lit "assistant") (history w) ->
  history w <> [] \/ polish_clicked inp = false ->
  follow_up inp = Some f -> f <> [] ->
  chat_groq (model_choice inp) (assemble f f) (service w) = (res, svc') ->
  latest_text (history w ++ [user_msg f]) f = f
  /\ script chat_groq inp w
     = match res with
       | inr r =>
           (inr tt,
            mkWorld (Some (history w ++ [user_msg f; assistant_msg (reply_text r)])) svc'
              (log w ++ List.map rendered (history w)
                 ++ [EAppend (user_msg f); EWrite (lit "user") f;
                     EInvoke (model_choice inp) (assemble f f);
                     EAppend (assistant_msg (reply_text r));
                     EWrite (lit "assistant") (reply_text r)]))
       | inl e =>
           (inl e,
            mkWorld (Some (history w ++ [user_msg f])) svc'
              (log w ++ List.map rendered (history w)
                 ++ [EAppend (user_msg f); EWrite (lit "user") f;
                     EInvoke (model_choice inp) (assemble f f)]))
       end.
Proof.
  intros Hall Hi Hf Hne Hg.
  assert (Hl : latest_text (history w) f = f) by apply latest_text_fallback, Hall.
  split.
  - rewrite latest_text_user. exact Hl.
  - pose proof (script_follow_up inp w f res svc' Hi Hf Hne) as S.
    rewrite Hl in S. exact (S Hg).
Qed.

(** C7.  When the client returns a response object, [humanize_via_groq]
    returns a text and does not raise: the [content] attribute unchanged
    when the object has one, the string form of the whole object when it
    has none. *)
Theorem response_without_content model text instructions w r svc' :
  chat_groq model (assemble text instructions) (service w) = (inr r, svc') ->
  exists out,
    humanize_via_groq (get_llm chat_groq model) text instructions w
    = (inr out,
       mkWorld (session w) svc' (log w ++ [EInvoke model (assemble text instructions)]))
    /\ (content_attr r = None -> out = str_form r)
    /\ (forall c, content_attr r = Some c -> out = c).
Proof.
  intros Hg. exists (reply_text r). split; [|split].
  - exact (humanize_run model text instructions w (inr r) svc' Hg).
  - unfold reply_text. intros ->. reflexivity.
  - unfold reply_text. intros c ->. reflexivity.
Qed.

(** C8.  Initial mode.  When the client raises on the article's prompt,
    the run ends with that exception and the store is as it was, empty:
    the two appends come after the call and are not reached. *)
Theorem initial_turn_client_failure inp w e svc' :
  history w = [] ->
  polish_clicked inp = true -> strip (original_text inp) <> [] ->
  follow_up_submitted inp = false ->
  chat_groq (model_choice inp) (assemble (original_text inp) []) (service w)
  = (inl e, svc') ->
  script chat_groq inp w
  = (inl e,
     mkWorld (Some []) svc'
       (log w ++ [EInvoke (model_choice inp) (assemble (original_text inp) [])]))
  /\ history (snd (script chat_groq inp w)) = history w.
Proof.
  intros Hh Hc Hs Hn Hg.
  pose proof (script_initial inp w (inl e) svc' Hh Hc Hs Hn Hg) as S.
  split; [exact S|]. rewrite S, Hh. reflexivity.
Qed.

(** C10.  The follow-up block tests only [if follow_up:].  A follow-up
    that is non-empty but whitespace-only runs a full turn: the raw text
    is appended as a user message, the client is called with a prompt made
    of the base block and the latest text only (no instructions block),
    and the assistant reply is appended.  The empty string alone skips the
    turn: the run then only replays the store. *)
Theorem whitespace_follow_up_runs inp w f res svc' :
  history w <> [] \/ polish_clicked inp = false ->
  follow_up inp = Some f -> f <> [] -> strip f = [] ->
  chat_groq (model_choice inp)
    [ (lit "system", SYSTEM_PROMPT);
      (lit "user", BASE_PROMPT ++ latest_text (history w) f) ] (service w)
  = (res, svc') ->
  script chat_groq inp w
  = match res with
    | inr r =>
        (inr tt,
         mkWorld (Some (history w ++ [user_msg f; assistant_msg (reply_text r)])) svc'
           (log w ++ List.map rendered (history w)
              ++ [EAppend (user_msg f); EWrite (lit "user") f;
                  EInvoke (model_choice inp)
                    [ (lit "system", SYSTEM_PROMPT);
                      (lit "user", BASE_PROMPT ++ latest_text (history w) f) ];
                  EAppend (assistant_msg (reply_text r));
                  EWrite (lit "assistant") (reply_text r)]))
    | inl e =>
        (inl e,
         mkWorld (Some (history w ++ [user_msg f])) svc'
           (log w ++ List.map rendered (history w)
              ++ [EAppend (user_msg f); EWrite (lit "user") f;
                  EInvoke (model_choice inp)
                    [ (lit "system", SYSTEM_PROMPT);
                      (lit "user", BASE_PROMPT ++ latest_text (history w) f) ]]))
    end
  /\ (forall inp0,
        history w <> [] \/ polish_clicked inp0 = false ->
        follow_up inp0 = Some [] ->
        script chat_groq inp0 w
        = (inr tt,
           mkWorld (Some (history w)) (service w)
             (log w ++ List.map rendered (history w)))).
Proof.
  intros Hi Hf Hne Hs Hg. split.
  - assert (Ha : assemble (latest_text (history w) f) f
                 = [ (lit "system", SYSTEM_PROMPT);
                     (lit "user", BASE_PROMPT ++ latest_text (history w) f) ]).
    { unfold assemble, full_prompt. rewrite Hs. reflexivity. }
    rewrite <- Ha in Hg |- *.
    exact (script_follow_up inp w f res svc' Hi Hf Hne Hg).
  - intros inp0 Hi0 Hf0. rewrite (script_refinement inp0 w Hi0).
    apply follow_up_idle. unfold follow_up_submitted. rewrite Hf0. reflexivity.
Qed.

(** C9, as the code has it.  Every run of the page, whatever the inputs
    and whether or not the client raises, keeps the stored messages in
    place and can only add messages after them; so does every sequence of
    runs, and a non-empty store stays non-empty.  The store leaves the
    empty state in a run where the initial-mode turn went through, or in
    a run where a non-empty follow-up was submitted (its user message is
    appended with the store still empty). *)
Theorem store_append_only inp w :
  let w' := snd (script chat_groq inp w) in
  (exists added, history w' = history w ++ added)
  /\ (history w <> [] -> history w' <> [])
  /\ (history w = [] -> history w' <> [] ->
      initial_turn_ok chat_groq inp w \/ follow_up_submitted inp = true)
  /\ (forall inps,
        exists added, history (session_runs chat_groq inps w) = history w ++ added).
Proof.
  cbv zeta. destruct (script_extends inp w) as [_ [added Hadd]].
  split; [|split; [|split]].
  - exists added. exact Hadd.
  - rewrite Hadd. intros Hne Happ. apply app_eq_nil in Happ as [Hnil _]. contradiction.
  - intros Hh Hne.
    destruct (follow_up_submitted inp) eqn:Hn; [right; reflexivity|left].
    destruct (polish_clicked inp) eqn:Hc.
    + destruct (strip (original_text inp)) as [|c s] eqn:Hs.
      * exfalso. apply Hne.
        rewrite (script_blank inp w Hh Hc Hs Hn). reflexivity.
      * assert (Hs' : strip (original_text inp) <> []) by (rewrite Hs; discriminate).
        destruct (chat_groq (model_choice inp) (assemble (original_text inp) [])
                    (service w)) as [[e|r] svc'] eqn:Hg.
        -- exfalso. apply Hne.
           rewrite (script_initial inp w (inl e) svc' Hh Hc Hs' Hn Hg). reflexivity.
        -- unfold initial_turn_ok. rewrite Hc. split; [reflexivity|].
           split; [exact Hs'|]. exists r, svc'. exact Hg.
    + exfalso. apply Hne.
      rewrite (script_refinement inp w (or_intror Hc)).
      rewrite (follow_up_idle _ _ _ Hn). simpl. exact Hh.
  - intros inps. apply session_runs_extends.
Qed.

End Runs.

(* ------------------------------------------------------------------ *)
(** ** The theorems at concrete sessions *)

(** With [A] the latest reply, the follow-up [make it shorter] adds the
    user message and the reply, in this order. *)
Lemma refinement_turn_witness :
  history (snd (script Demo.steady_groq Demo.follow_shorter Demo.after_A))
  = [ user_msg (lit "Hello world."); assistant_msg (lit "A");
      user_msg (lit "make it shorter"); assistant_msg (lit "polished") ].
Proof.
  rewrite (refinement_turn nat Demo.steady_groq Demo.follow_shorter Demo.after_A
             [user_msg (lit "Hello world.")] [] (lit "A") (lit "make it shorter")
             (inr Demo.polished) 2).
  - reflexivity.
  - reflexivity.
  - constructor.
  - reflexivity.
  - discriminate.
  - reflexivity.
Defined.

Lemma initial_turn_witness :
  history (snd (script Demo.steady_groq Demo.polish_hello Demo.fresh))
  = [ user_msg (lit "Hello world."); assistant_msg (lit "polished") ].
Proof.
  rewrite (initial_turn nat Demo.steady_groq Demo.polish_hello Demo.fresh
             Demo.polished 1).
  - reflexivity.
  - reflexivity.
  - reflexivity.
  - vm_compute. discriminate.
  - reflexivity.
  - reflexivity.
Defined.

Lemma blank_article_rejected_witness :
  history (session_runs Demo.steady_groq
             [Demo.polish_spaces; Demo.polish_empty; Demo.polish_spaces] Demo.fresh) = []
  /\ service (session_runs Demo.steady_groq
                [Demo.polish_spaces; Demo.polish_empty; Demo.polish_spaces] Demo.fresh) = 0.
Proof.
  assert (B1 : blank_submission Demo.polish_spaces) by (repeat split).
  assert (B2 : blank_submission Demo.polish_empty) by (repeat split).
  destruct (blank_article_rejected nat Demo.steady_groq
              [Demo.polish_spaces; Demo.polish_empty; Demo.polish_spaces] Demo.fresh
              eq_refl (Forall_cons _ B1 (Forall_cons _ B2 (Forall_cons _ B1 (Forall_nil _)))))
    as (H1 & H2 & _).
  split; [exact H1 | exact H2].
Defined.

(** On a fresh session the follow-up is both the text and the instructions. *)
Lemma refinement_fallback_witness :
  log (snd (script Demo.steady_groq Demo.follow_shorter Demo.fresh))
  = [ EAppend (user_msg (lit "make it shorter"));
      EWrite (lit "user") (lit "make it shorter");
      EInvoke Demo.model (assemble (lit "make it shorter") (lit "make it shorter"));
      EAppend (assistant_msg (lit "polished"));
      EWrite (lit "assistant") (lit "polished") ].
Proof.
  destruct (refinement_fallback nat Demo.steady_groq Demo.follow_shorter Demo.fresh
              (lit "make it shorter") (inr Demo.polished) 1) as [_ E].
  - constructor.
  - right. reflexivity.
  - reflexivity.
  - discriminate.
  - reflexivity.
  - rewrite E. reflexivity.
Defined.

Lemma response_without_content_witness :
  fst (humanize_via_groq (get_llm Demo.bare_groq Demo.model) (lit "Hi") [] Demo.fresh)
  = inr (lit "<raw response>").
Proof.
  destruct (response_without_content nat Demo.bare_groq Demo.model (lit "Hi") []
              Demo.fresh (mkResponse None (lit "<raw response>")) 1 eq_refl)
    as (out & E & Hnone & _).
  rewrite E. simpl. rewrite (Hnone eq_refl). reflexivity.
Defined.

Lemma initial_turn_client_failure_witness :
  fst (script Demo.down_groq Demo.polish_hello Demo.fresh)
  = inl (ClientError (lit "connection error"))
  /\ history (snd (script Demo.down_groq Demo.polish_hello Demo.fresh)) = [].
Proof.
  destruct (initial_turn_client_failure nat Demo.down_groq Demo.polish_hello Demo.fresh
              (ClientError (lit "connection error")) 1) as [E H].
  - reflexivity.
  - reflexivity.
  - vm_compute. discriminate.
  - reflexivity.
  - reflexivity.
  - split; [rewrite E; reflexivity | exact H].
Defined.

(** Three spaces in the chat input run a whole turn. *)
Lemma whitespace_follow_up_runs_witness :
  history (snd (script Demo.steady_groq Demo.follow_spaces Demo.after_A))
  = [ user_msg (lit "Hello world."); assistant_msg (lit "A");
      user_msg (lit "   "); assistant_msg (lit "polished") ].
Proof.
  destruct (whitespace_follow_up_runs nat Demo.steady_groq Demo.follow_spaces Demo.after_A
              (lit "   ") (inr Demo.polished) 2) as [E _].
  - left. discriminate.
  - reflexivity.
  - discriminate.
  - reflexivity.
  - reflexivity.
  - rewrite E. reflexivity.
Defined.

(** C9 as worded fails: on a fresh session a follow-up typed in the chat
    input, with the article button never pressed, makes the store
    non-empty. *)
Lemma store_leaves_empty_counterexample :
  ~ store_leaves_empty_only_by_initial_turn Demo.steady_groq.
Proof.
  intros H.
  destruct (H Demo.follow_shorter Demo.fresh) as (_ & _ & H3).
  destruct H3 as (Hc & _).
  - reflexivity.
  - vm_compute. discriminate.
  - discriminate Hc.
Qed.

(* ------------------------------------------------------------------ *)
(** ** More on the prompt: how instructions are echoed *)

Lemma blank_rev (s : pystr) : forallb is_space s = true -> forallb is_space (rev s) = true.
Proof.
  rewrite !forallb_forall. intros H x Hx. apply H, in_rev. exact Hx.
Qed.

Lemma blank_app (a b : pystr) :
  forallb is_space a = true -> forallb is_space b = true ->
  forallb is_space (a ++ b) = true.
Proof. intros Ha Hb. rewrite forallb_app, Ha, Hb. reflexivity. Qed.

Lemma lstrip_app_blank (l s : pystr) :
  forallb is_space l = true -> lstrip (l ++ s) = lstrip s.
Proof.
  induction l as [|c l IH]; simpl; [reflexivity|].
  intros H. apply andb_true_iff in H as [Hc Hl]. rewrite Hc. auto.
Qed.

Lemma lstrip_app_keep (s r : pystr) : lstrip s <> [] -> lstrip (s ++ r) = lstrip s ++ r.
Proof.
  induction s as [|c s IH]; simpl; [congruence|].
  destruct (is_space c); [exact IH | reflexivity].
Qed.

Lemma rstrip_app_blank (s r : pystr) :
  forallb is_space r = true -> rstrip (s ++ r) = rstrip s.
Proof.
  intros H. unfold rstrip. rewrite rev_app_distr.
  rewrite (lstrip_app_blank (rev r) (rev s) (blank_rev r H)). reflexivity.
Qed.

(** Whitespace around a text does not change what [strip] returns. *)
Lemma strip_pad (l s r : pystr) :
  forallb is_space l = true -> forallb is_space r = true ->
  strip (l ++ s ++ r) = strip s.
Proof.
  intros Hl Hr. unfold strip. rewrite (lstrip_app_blank l (s ++ r) Hl).
  destruct (lstrip s) as [|c t] eqn:E.
  - rewrite (lstrip_blank (s ++ r)); [reflexivity|].
    apply blank_app; [apply lstrip_nil_blank, E | exact Hr].
  - rewrite lstrip_app_keep by (rewrite E; discriminate).
    rewrite E. apply rstrip_app_blank, Hr.
Qed.






(** X1.  Whitespace before and after the instructions never reaches the
    client: padding the instructions with whitespace on either side leaves
    the whole payload unchanged. *)
Theorem instructions_padding_ignored (t l i r : pystr) :
  forallb is_space l = true -> forallb is_space r = true ->
  assemble t (l ++ i ++ r) = assemble t i.
Proof.
  intros Hl Hr. unfold assemble, full_prompt.
  rewrite (strip_pad l i r Hl Hr). reflexivity.
Qed.


(** X3.  The prompt does not tell text from instructions: a text that
    starts with the instructions line, sent without instructions, gives the
    same payload as the rest of the text sent with those instructions. *)
Theorem instructions_line_in_text (t i : pystr) :
  strip i <> [] ->
  assemble ([9889%N] ++ lit " Extra instructions: " ++ strip i ++ [10; 10]%N ++ t) []
  = assemble t i.
Proof.
  intros Hne. unfold assemble, full_prompt. apply truthy_true in Hne.
  rewrite Hne. change (truthy (strip [])) with false. cbv iota.
  unfold extra_line. rewrite <- !app_assoc. reflexivity.
Qed.

(** X4.  For any instructions the prompt is a prefix that depends on the
    instructions only, followed by the text: dropping that prefix gives the
    text back, so two texts with the same prompt are equal. *)
Theorem text_recovered_from_prompt (t i : pystr) :
  full_prompt t i = full_prompt [] i ++ t
  /\ List.skipn (List.length (full_prompt [] i)) (full_prompt t i) = t
  /\ (forall t', assemble t i = assemble t' i -> t = t').
Proof.
  assert (E : forall x, full_prompt x i = full_prompt [] i ++ x).
  { intros x. unfold full_prompt. rewrite app_nil_r. reflexivity. }
  split; [apply E|]. split.
  - rewrite (E t). generalize (full_prompt [] i). intros b.
    induction b; simpl; auto.
  - intros t' H. unfold assemble in H. injection H as H.
    rewrite (E t), (E t') in H. exact (app_inv_head _ _ _ H).
Qed.

Lemma instructions_padding_ignored_witness :
  assemble (lit "A") (lit "  make it shorter ") = assemble (lit "A") (lit "make it shorter").
Proof.
  exact (instructions_padding_ignored (lit "A") (lit "  ") (lit "make it shorter") (lit " ")
           eq_refl eq_refl).
Defined.


Lemma instructions_line_in_text_witness :
  assemble ([9889%N] ++ lit " Extra instructions: " ++ lit "be brief"
              ++ [10; 10]%N ++ lit "A") []
  = assemble (lit "A") (lit "be brief").
Proof.
  apply (instructions_line_in_text (lit "A") (lit "be brief")).
  vm_compute. discriminate.
Defined.

(* ------------------------------------------------------------------ *)
(** ** What a run adds to the store *)

Section Added.

Variable Service : Type.
Variable chat_groq : pystr -> Payload -> Service -> (Exn + Response) * Service.

Implicit Types (w : World Service) (h : list Message) (lg : list Event).

(** The page body after the key has been initialised. *)
Lemma script_unfold inp w :
  script chat_groq inp w
  = match initial_block (get_llm chat_groq (model_choice inp)) inp
            (mkWorld (Some (history w)) (service w) (log w)) with
    | (inl e, w1) => (inl e, w1)
    | (inr _, w1) =>
        match display_block w1 with
        | (inl e, w2) => (inl e, w2)
        | (inr _, w2) => follow_up_block (get_llm chat_groq (model_choice inp)) inp w2
        end
    end.
Proof.
  unfold script. cbv zeta.
  rewrite (bind_inr Service _ _ _ _ _ (init_run Service w)).
  unfold bind. reflexivity.
Qed.

(** The first block adds nothing or one exchange; it raises only what the
    client raised, and then adds nothing. *)
Lemma initial_added inp h svc lg :
  exists a1,
    session (snd (initial_block (get_llm chat_groq (model_choice inp)) inp
                    (mkWorld (Some h) svc lg))) = Some (h ++ a1)
    /\ ((a1 = []
         /\ (fst (initial_block (get_llm chat_groq (model_choice inp)) inp
                    (mkWorld (Some h) svc lg)) = inr tt
             \/ exists e,
                  fst (initial_block (get_llm chat_groq (model_choice inp)) inp
                         (mkWorld (Some h) svc lg)) = inl e
                  /\ client_raised chat_groq e))
        \/ (exists p,
              a1 = [user_msg (original_text inp); assistant_msg p]
              /\ fst (initial_block (get_llm chat_groq (model_choice inp)) inp
                        (mkWorld (Some h) svc lg)) = inr tt)).
Proof.
  destruct h as [|m h'].
  2:{ exists []. rewrite (initial_idle Service _ inp (m :: h') svc lg)
        by (left; discriminate).
      simpl. rewrite app_nil_r. auto. }
  destruct (polish_clicked inp) eqn:Hc.
  2:{ exists []. rewrite (initial_idle Service _ inp [] svc lg) by (right; exact Hc).
      simpl. auto. }
  destruct (strip (original_text inp)) as [|c s] eqn:Hs.
  { exists []. rewrite (initial_blank Service _ inp svc lg Hc Hs). simpl. auto. }
  assert (Hs' : strip (original_text inp) <> []) by (rewrite Hs; discriminate).
  destruct (chat_groq (model_choice inp) (assemble (original_text inp) []) svc)
    as [[e|r] svc'] eqn:Hg.
  - exists []. rewrite (initial_polish Service chat_groq inp svc lg (inl e) svc' Hc Hs' Hg).
    simpl. split; [reflexivity|]. left. split; [reflexivity|]. right.
    exists e. split; [reflexivity|]. unfold client_raised. eauto.
  - exists [user_msg (original_text inp); assistant_msg (reply_text r)].
    rewrite (initial_polish Service chat_groq inp svc lg (inr r) svc' Hc Hs' Hg).
    simpl. split; [reflexivity|]. right. exists (reply_text r). auto.
Qed.

(** The last block adds nothing, or a user message and its reply, or, when
    the client raises, the user message alone. *)
Lemma follow_up_added inp h svc lg :
  exists a2,
    session (snd (follow_up_block (get_llm chat_groq (model_choice inp)) inp
                    (mkWorld (Some h) svc lg))) = Some (h ++ a2)
    /\ (a2 = []
        \/ (exists f p, a2 = [user_msg f; assistant_msg p])
        \/ (exists f e, a2 = [user_msg f] /\ client_raised chat_groq e)).
Proof.
  destruct (follow_up_submitted inp) eqn:Hn.
  2:{ exists []. rewrite (follow_up_idle Service _ inp _ Hn). simpl.
      rewrite app_nil_r. auto. }
  unfold follow_up_submitted in Hn.
  destruct (follow_up inp) as [f|] eqn:Hf; [|discriminate].
  apply truthy_true in Hn.
  destruct (chat_groq (model_choice inp) (assemble (latest_text h f) f) svc)
    as [[e|r] svc'] eqn:Hg.
  - exists [user_msg f].
    rewrite (follow_up_run Service chat_groq inp f h svc lg (inl e) svc' Hf Hn Hg).
    simpl. split; [reflexivity|]. right. right. exists f, e. split; [reflexivity|].
    unfold client_raised. eauto.
  - exists [user_msg f; assistant_msg (reply_text r)].
    rewrite (follow_up_run Service chat_groq inp f h svc lg (inr r) svc' Hf Hn Hg).
    simpl. split; [reflexivity|]. right. left. exists f, (reply_text r). reflexivity.
Qed.

(** What one run of the page adds to the store. *)
Lemma script_added inp w :
  exists a1 a2,
    history (snd (script chat_groq inp w)) = history w ++ a1 ++ a2
    /\ (a1 = [] \/ exists t p, a1 = [user_msg t; assistant_msg p])
    /\ (a2 = []
        \/ (exists f p, a2 = [user_msg f; assistant_msg p])
        \/ (exists f e, a2 = [user_msg f] /\ client_raised chat_groq e)).
Proof.
  rewrite script_unfold.
  destruct (initial_added inp (history w) (service w) (log w)) as (a1 & S1 & Sh1).
  destruct (initial_block (get_llm chat_groq (model_choice inp)) inp
              (mkWorld (Some (history w)) (service w) (log w))) as [[e|[]] w1].
  - exists a1, []. simpl in *. unfold history at 1. rewrite S1, app_nil_r.
    split; [reflexivity|]. split; [|left; reflexivity].
    destruct Sh1 as [[-> _]|[p [-> _]]]; [left; reflexivity | right; eauto].
  - destruct w1 as [s1 svc1 lg1]. simpl in S1. subst s1.
    rewrite (display_run Service (history w ++ a1) svc1 lg1).
    destruct (follow_up_added inp (history w ++ a1) svc1
                (lg1 ++ List.map rendered (history w ++ a1))) as (a2 & S2 & Sh2).
    exists a1, a2. unfold history at 1. rewrite S2, app_assoc.
    split; [reflexivity|]. split; [|exact Sh2].
    destruct Sh1 as [[-> _]|[p [-> _]]]; [left; reflexivity | right; eauto].
Qed.

End Added.

(* ------------------------------------------------------------------ *)
(** ** Invariants of the store *)

Lemma user_is_not_assistant : lit "user" <> lit "assistant".
Proof. vm_compute. discriminate. Qed.

Lemma replies_follow_user_nil : replies_follow_user [].
Proof. intros [|i] m H; discriminate. Qed.

(** Appending a message keeps the invariant when, if it is an assistant
    message, the store ends with a user message. *)
Lemma replies_follow_user_snoc (h : list Message) (m : Message) :
  replies_follow_user h ->
  (role m = lit "assistant" ->
   exists h0 u, h = h0 ++ [u] /\ role u = lit "user") ->
  replies_follow_user (h ++ [m]).
Proof.
  intros I Hm i x Hn Hr.
  destruct (Nat.lt_ge_cases i (List.length h)) as [Hlt|Hge].
  - rewrite nth_error_app1 in Hn by exact Hlt.
    destruct (I i x Hn Hr) as (j & u & -> & Hj & Hu).
    exists j, u. split; [reflexivity|]. split; [|exact Hu].
    rewrite nth_error_app1 by lia. exact Hj.
  - rewrite nth_error_app2 in Hn by exact Hge.
    destruct (i - List.length h) as [|k] eqn:Hk; simpl in Hn.
    + injection Hn as <-. destruct (Hm Hr) as (h0 & u & -> & Hu).
      rewrite length_app in Hk, Hge. simpl in Hk, Hge.
      exists (List.length h0), u. split; [lia|]. split; [|exact Hu].
      rewrite nth_error_app1 by (rewrite length_app; simpl; lia).
      rewrite nth_error_app2 by lia. rewrite Nat.sub_diag. reflexivity.
    + destruct k; discriminate.
Qed.

Lemma replies_follow_user_user (h : list Message) (f : pystr) :
  replies_follow_user h -> replies_follow_user (h ++ [user_msg f]).
Proof.
  intros I. apply replies_follow_user_snoc; [exact I|].
  simpl. intros H. destruct (user_is_not_assistant H).
Qed.

Lemma replies_follow_user_pair (h : list Message) (f p : pystr) :
  replies_follow_user h -> replies_follow_user (h ++ [user_msg f; assistant_msg p]).
Proof.
  intros I. change [user_msg f; assistant_msg p] with ([user_msg f] ++ [assistant_msg p]).
  rewrite app_assoc. apply replies_follow_user_snoc.
  - apply replies_follow_user_user, I.
  - intros _. exists h, (user_msg f). split; reflexivity.
Qed.

Lemma exchanges_snoc (pairs : list (pystr * pystr)) (f p : pystr) :
  exchanges (pairs ++ [(f, p)]) = exchanges pairs ++ [user_msg f; assistant_msg p].
Proof. unfold exchanges. rewrite flat_map_app. simpl. reflexivity. Qed.

Section Invariants.

Variable Service : Type.
Variable chat_groq : pystr -> Payload -> Service -> (Exn + Response) * Service.

Implicit Types (w : World Service) (h : list Message).

(** X5.  The page writes no role but [user] and [assistant]: a store whose
    messages all carry one of the two roles (the empty store of a fresh
    session, for one) keeps that through any sequence of runs, whatever the
    inputs and whether or not the client raises. *)
Theorem roles_stay_known inps w :
  Forall well_roled (history w) ->
  Forall well_roled (history (session_runs chat_groq inps w)).
Proof.
  revert w. induction inps as [|inp inps IH]; intros w Hw; simpl; [exact Hw|].
  apply IH.
  destruct (script_added Service chat_groq inp w) as (a1 & a2 & E & S1 & S2).
  rewrite E. apply Forall_app. split; [exact Hw|]. apply Forall_app. split.
  - destruct S1 as [->|(t & p & ->)]; [constructor|].
    constructor; [left; reflexivity|]. constructor; [right; reflexivity|]. constructor.
  - destruct S2 as [->|[(f & p & ->)|(f & e & -> & _)]]; [constructor| |].
    + constructor; [left; reflexivity|]. constructor; [right; reflexivity|]. constructor.
    + constructor; [left; reflexivity|]. constructor.
Qed.

(** X6.  An assistant message is never stored on its own: in a store where
    every assistant message comes directly after a user message (the empty
    store included), that still holds after any sequence of runs.  So the
    store never starts with a reply and never holds two replies in a row. *)
Theorem replies_always_follow_user inps w :
  replies_follow_user (history w) ->
  replies_follow_user (history (session_runs chat_groq inps w)).
Proof.
  revert w. induction inps as [|inp inps IH]; intros w Hw; simpl; [exact Hw|].
  apply IH.
  destruct (script_added Service chat_groq inp w) as (a1 & a2 & E & S1 & S2).
  rewrite E, app_assoc.
  assert (H1 : replies_follow_user (history w ++ a1)).
  { destruct S1 as [->|(t & p & ->)].
    - rewrite app_nil_r. exact Hw.
    - apply replies_follow_user_pair, Hw. }
  destruct S2 as [->|[(f & p & ->)|(f & e & -> & _)]].
  - rewrite app_nil_r. exact H1.
  - apply replies_follow_user_pair, H1.
  - apply replies_follow_user_user, H1.
Qed.

(** X7.  With a client that never raises, a store made of whole exchanges
    (user text, then reply) stays made of whole exchanges through any
    sequence of runs: user and assistant messages alternate strictly and no
    user message is left without its reply. *)
Theorem reliable_client_pairs inps w pairs :
  reliable chat_groq ->
  history w = exchanges pairs ->
  exists more, history (session_runs chat_groq inps w) = exchanges (pairs ++ more).
Proof.
  intros R. revert w pairs.
  induction inps as [|inp inps IH]; intros w pairs Hw; simpl.
  - exists []. rewrite app_nil_r. exact Hw.
  - destruct (script_added Service chat_groq inp w) as (a1 & a2 & E & S1 & S2).
    assert (H1 : exists m1, history w ++ a1 = exchanges (pairs ++ m1)).
    { destruct S1 as [->|(t & p & ->)].
      - exists []. rewrite !app_nil_r. exact Hw.
      - exists [(t, p)]. rewrite exchanges_snoc, Hw. reflexivity. }
    destruct H1 as [m1 H1].
    assert (H2 : exists m2, history w ++ a1 ++ a2 = exchanges ((pairs ++ m1) ++ m2)).
    { rewrite app_assoc, H1.
      destruct S2 as [->|[(f & p & ->)|(f & e & _ & (model & pl & s & s' & He))]].
      - exists []. rewrite !app_nil_r. reflexivity.
      - exists [(f, p)]. rewrite exchanges_snoc. reflexivity.
      - destruct (R model pl s) as (r & s'' & Hr). rewrite Hr in He. discriminate. }
    destruct H2 as [m2 H2]. rewrite <- E in H2.
    destruct (IH _ _ H2) as [m3 H3].
    exists (m1 ++ m2 ++ m3). rewrite H3. f_equal. rewrite <- !app_assoc. reflexivity.
Qed.

End Invariants.

(* ------------------------------------------------------------------ *)
(** ** Runs that follow one another *)

(** User messages after the latest reply do not change the latest text. *)
Lemma latest_text_skip_user (h : list Message) (g f : pystr) :
  latest_text (h ++ [user_msg g]) f = latest_text h f.
Proof.
  unfold latest_text. rewrite last_ai_texts_app, last_ai_texts_user, app_nil_r.
  reflexivity.
Qed.

Lemma rendered_well_roled (m : Message) :
  well_roled m -> rendered m = EWrite (role m) (content m).
Proof.
  unfold rendered. intros [H|H]; rewrite H; reflexivity.
Qed.

Section Sessions.

Variable Service : Type.
Variable chat_groq : pystr -> Payload -> Service -> (Exn + Response) * Service.

Implicit Types (w : World Service) (h : list Message) (lg : list Event).

(** X8.  A run in which no widget fired (the page rerun for a new model
    choice, say) replays the store and changes nothing: the store and the
    service are as before, no client call is made, and this holds for any
    number of such runs. *)
Theorem idle_runs_keep_state inps w :
  Forall idle inps ->
  history (session_runs chat_groq inps w) = history w
  /\ service (session_runs chat_groq inps w) = service w
  /\ (forall inp, idle inp ->
       script chat_groq inp w
       = (inr tt,
          mkWorld (Some (history w)) (service w)
            (log w ++ List.map rendered (history w)))).
Proof.
  assert (One : forall inp w0, idle inp ->
            script chat_groq inp w0
            = (inr tt,
               mkWorld (Some (history w0)) (service w0)
                 (log w0 ++ List.map rendered (history w0)))).
  { intros inp w0 [Hc Hn].
    rewrite (script_refinement Service chat_groq inp w0 (or_intror Hc)).
    apply follow_up_idle, Hn. }
  intros Hall. split; [|split; [|intros inp; apply One]].
  - revert w. induction Hall as [|inp inps Hi _ IH]; intros w; simpl; [reflexivity|].
    rewrite (One inp w Hi). simpl. rewrite IH. reflexivity.
  - revert w. induction Hall as [|inp inps Hi _ IH]; intros w; simpl; [reflexivity|].
    rewrite (One inp w Hi). simpl. rewrite IH. reflexivity.
Qed.

(** X9.  The two modes exclude each other: once the store is non-empty the
    article box is not read.  Two runs that agree on the model choice and
    on the chat input do the same, whatever the article text and the
    button say. *)
Theorem article_box_unread_once_stored inp1 inp2 w :
  history w <> [] ->
  model_choice inp1 = model_choice inp2 ->
  follow_up inp1 = follow_up inp2 ->
  script chat_groq inp1 w = script chat_groq inp2 w.
Proof.
  intros Hne Hm Hf.
  rewrite (script_refinement Service chat_groq inp1 w (or_introl Hne)).
  rewrite (script_refinement Service chat_groq inp2 w (or_introl Hne)).
  unfold follow_up_block. rewrite Hm, Hf. reflexivity.
Qed.

(** X10.  Refinements chain: after a follow-up to which the client returned
    [r1], the next follow-up [f2] is sent with the text of [r1] as the text
    to refine, and the store then holds both exchanges after what it held
    before. *)
Theorem refinement_chains inp1 inp2 w f1 f2 r1 svc1 res svc2 :
  history w <> [] \/ polish_clicked inp1 = false ->
  follow_up inp1 = Some f1 -> f1 <> [] ->
  chat_groq (model_choice inp1) (assemble (latest_text (history w) f1) f1) (service w)
  = (inr r1, svc1) ->
  follow_up inp2 = Some f2 -> f2 <> [] ->
  chat_groq (model_choice inp2) (assemble (reply_text r1) f2) svc1 = (res, svc2) ->
  let w1 := snd (script chat_groq inp1 w) in
  history w1 = history w ++ [user_msg f1; assistant_msg (reply_text r1)]
  /\ script chat_groq inp2 w1
     = match res with
       | inr r2 =>
           (inr tt,
            mkWorld (Some (history w ++ [user_msg f1; assistant_msg (reply_text r1);
                                         user_msg f2; assistant_msg (reply_text r2)])) svc2
              (log w1 ++ List.map rendered (history w1)
                 ++ [EAppend (user_msg f2); EWrite (lit "user") f2;
                     EInvoke (model_choice inp2) (assemble (reply_text r1) f2);
                     EAppend (assistant_msg (reply_text r2));
                     EWrite (lit "assistant") (reply_text r2)]))
       | inl e =>
           (inl e,
            mkWorld (Some (history w ++ [user_msg f1; assistant_msg (reply_text r1);
                                         user_msg f2])) svc2
              (log w1 ++ List.map rendered (history w1)
                 ++ [EAppend (user_msg f2); EWrite (lit "user") f2;
                     EInvoke (model_choice inp2) (assemble (reply_text r1) f2)]))
       end.
Proof.
  intros Hi Hf1 Hn1 Hg1 Hf2 Hn2 Hg2. cbv zeta.
  pose proof (script_follow_up Service chat_groq inp1 w f1 (inr r1) svc1 Hi Hf1 Hn1 Hg1) as R1.
  cbv iota in R1. rewrite R1. simpl snd.
  set (w1 := mkWorld _ svc1 _).
  assert (H1 : history w1 = history w ++ [user_msg f1; assistant_msg (reply_text r1)])
    by reflexivity.
  split; [exact H1|].
  assert (Hl : latest_text (history w1) f2 = reply_text r1).
  { rewrite H1.
    change [user_msg f1; assistant_msg (reply_text r1)]
      with ([user_msg f1] ++ assistant_msg (reply_text r1) :: []).
    rewrite app_assoc. apply latest_text_recent. constructor. }
  assert (Hi2 : history w1 <> [] \/ polish_clicked inp2 = false).
  { left. rewrite H1. destruct (history w); discriminate. }
  assert (Hg2' : chat_groq (model_choice inp2)
                   (assemble (latest_text (history w1) f2) f2) (service w1) = (res, svc2)).
  { rewrite Hl. exact Hg2. }
  rewrite (script_follow_up Service chat_groq inp2 w1 f2 res svc2 Hi2 Hf2 Hn2 Hg2').
  rewrite Hl, H1. destruct res; rewrite <- !app_assoc; reflexivity.
Qed.

(** X11.  A follow-up on which the client raises leaves its user message
    in the store with no reply.  The next follow-up is refined against the
    same latest text as if the failed one had not been sent, and the store
    then holds the two user messages in a row before the reply. *)
Theorem follow_up_after_failure inp1 inp2 w f1 f2 e svc1 r2 svc2 :
  history w <> [] \/ polish_clicked inp1 = false ->
  follow_up inp1 = Some f1 -> f1 <> [] ->
  chat_groq (model_choice inp1) (assemble (latest_text (history w) f1) f1) (service w)
  = (inl e, svc1) ->
  follow_up inp2 = Some f2 -> f2 <> [] ->
  chat_groq (model_choice inp2) (assemble (latest_text (history w) f2) f2) svc1
  = (inr r2, svc2) ->
  let w1 := snd (script chat_groq inp1 w) in
  fst (script chat_groq inp1 w) = inl e
  /\ history w1 = history w ++ [user_msg f1]
  /\ script chat_groq inp2 w1
     = (inr tt,
        mkWorld (Some (history w ++ [user_msg f1; user_msg f2;
                                     assistant_msg (reply_text r2)])) svc2
          (log w1 ++ List.map rendered (history w1)
             ++ [EAppend (user_msg f2); EWrite (lit "user") f2;
                 EInvoke (model_choice inp2) (assemble (latest_text (history w) f2) f2);
                 EAppend (assistant_msg (reply_text r2));
                 EWrite (lit "assistant") (reply_text r2)])).
Proof.
  intros Hi Hf1 Hn1 Hg1 Hf2 Hn2 Hg2. cbv zeta.
  pose proof (script_follow_up Service chat_groq inp1 w f1 (inl e) svc1 Hi Hf1 Hn1 Hg1) as R1.
  cbv iota in R1. rewrite R1. simpl snd. simpl fst.
  set (w1 := mkWorld _ svc1 _).
  assert (H1 : history w1 = history w ++ [user_msg f1]) by reflexivity.
  split; [reflexivity|]. split; [exact H1|].
  assert (Hl : latest_text (history w1) f2 = latest_text (history w) f2).
  { rewrite H1. apply latest_text_skip_user. }
  assert (Hi2 : history w1 <> [] \/ polish_clicked inp2 = false).
  { left. rewrite H1. destruct (history w); discriminate. }
  assert (Hg2' : chat_groq (model_choice inp2)
                   (assemble (latest_text (history w1) f2) f2) (service w1)
                 = (inr r2, svc2)).
  { rewrite Hl. exact Hg2. }
  rewrite (script_follow_up Service chat_groq inp2 w1 f2 (inr r2) svc2 Hi2 Hf2 Hn2 Hg2').
  rewrite Hl, H1. rewrite <- !app_assoc. reflexivity.
Qed.

(** X12.  A failed first submission can be retried: when the client raises
    on the article and the button is pressed again, the retry that gets a
    response leaves the store exactly as a first attempt would, with one
    exchange and no trace of the failed call. *)
Theorem initial_turn_retry inp1 inp2 w e svc1 r svc2 :
  history w = [] ->
  polish_clicked inp1 = true -> strip (original_text inp1) <> [] ->
  follow_up_submitted inp1 = false ->
  chat_groq (model_choice inp1) (assemble (original_text inp1) []) (service w)
  = (inl e, svc1) ->
  polish_clicked inp2 = true -> strip (original_text inp2) <> [] ->
  follow_up_submitted inp2 = false ->
  chat_groq (model_choice inp2) (assemble (original_text inp2) []) svc1
  = (inr r, svc2) ->
  history (snd (script chat_groq inp1 w)) = []
  /\ fst (script chat_groq inp2 (snd (script chat_groq inp1 w))) = inr tt
  /\ history (snd (script chat_groq inp2 (snd (script chat_groq inp1 w))))
     = [user_msg (original_text inp2); assistant_msg (reply_text r)].
Proof.
  intros Hh Hc1 Hs1 Hn1 Hg1 Hc2 Hs2 Hn2 Hg2.
  pose proof (script_initial Service chat_groq inp1 w (inl e) svc1 Hh Hc1 Hs1 Hn1 Hg1) as R1.
  cbv iota in R1. rewrite R1. simpl snd.
  set (w1 := mkWorld _ svc1 _).
  assert (H1 : history w1 = []) by reflexivity.
  rewrite (script_initial Service chat_groq inp2 w1 (inr r) svc2 H1 Hc2 Hs2 Hn2 Hg2).
  repeat split.
Qed.

(** X13.  The display loop shows the store as it is: for a store whose
    roles are [user] and [assistant] it writes one bubble per message, in
    store order, under the message's own role and with its content, and
    changes neither the store nor the service. *)
Theorem display_shows_store h svc lg :
  Forall well_roled h ->
  display_block (Service:=Service) (mkWorld (Some h) svc lg)
  = (inr tt,
     mkWorld (Some h) svc (lg ++ List.map (fun m => EWrite (role m) (content m)) h)).
Proof.
  intros Hw. rewrite (display_run Service h svc lg). do 3 f_equal.
  induction Hw as [|m h Hm _ IH]; simpl; [reflexivity|].
  rewrite (rendered_well_roled m Hm), IH. reflexivity.
Qed.

End Sessions.

(* ------------------------------------------------------------------ *)
(** ** The start of the page *)

(** X14.  Without [GROQ_API_KEY] (absent from the environment, or set to
    the empty string) every execution stops at the error box: whatever the
    widgets hold, the store, the service and the log are untouched.  The
    page stops this way in no other case; with a key, the page body runs
    with its clients bound to that key. *)
Theorem page_needs_key (Service : Type)
    (ChatGroq : pystr -> pystr -> Payload -> Service -> (Exn + Response) * Service)
    (getenv : pystr -> option pystr) (inp : Inputs) (w : World Service) :
  ((getenv (lit "GROQ_API_KEY") = None \/ getenv (lit "GROQ_API_KEY") = Some [])
   <-> exists err, fst (page ChatGroq getenv inp w) = Halted err)
  /\ (getenv (lit "GROQ_API_KEY") = None \/ getenv (lit "GROQ_API_KEY") = Some []
      -> page ChatGroq getenv inp w = (Halted KEY_ERROR, w))
  /\ (forall key,
        getenv (lit "GROQ_API_KEY") = Some key -> key <> [] ->
        snd (page ChatGroq getenv inp w) = snd (script (ChatGroq key) inp w)
        /\ fst (page ChatGroq getenv inp w)
           = match fst (script (ChatGroq key) inp w) with
             | inr _ => Completed
             | inl e => Failed e
             end).
Proof.
  assert (Off : getenv (lit "GROQ_API_KEY") = None \/ getenv (lit "GROQ_API_KEY") = Some []
                -> page ChatGroq getenv inp w = (Halted KEY_ERROR, w)).
  { unfold page, GROQ_API_KEY. intros [H|H]; rewrite H; reflexivity. }
  assert (On : forall key,
            getenv (lit "GROQ_API_KEY") = Some key -> key <> [] ->
            page ChatGroq getenv inp w
            = match script (ChatGroq key) inp w with
              | (inr _, w') => (Completed, w')
              | (inl e, w') => (Failed e, w')
              end).
  { intros key H Hne. unfold page, GROQ_API_KEY. rewrite H. simpl.
    apply truthy_true in Hne. rewrite Hne. reflexivity. }
  split; [split|split].
  - intros H. exists KEY_ERROR. rewrite (Off H). reflexivity.
  - intros [err H].
    destruct (getenv (lit "GROQ_API_KEY")) as [[|c key]|] eqn:E; auto.
    rewrite (On (c :: key) eq_refl) in H by discriminate.
    destruct (script (ChatGroq (c :: key)) inp w) as [[e|u] w']; discriminate.
  - exact Off.
  - intros key H Hne. rewrite (On key H Hne).
    destruct (script (ChatGroq key) inp w) as [[e|u] w']; split; reflexivity.
Qed.

(* ------------------------------------------------------------------ *)
(** ** The further theorems at concrete sessions *)

Lemma roles_stay_known_witness :
  Forall well_roled
    (history (session_runs Scenario.flaky_groq
                [Demo.follow_shorter; Scenario.follow_longer] Demo.fresh)).
Proof.
  apply (roles_stay_known nat Scenario.flaky_groq
           [Demo.follow_shorter; Scenario.follow_longer] Demo.fresh).
  constructor.
Defined.

Lemma replies_always_follow_user_witness :
  replies_follow_user
    (history (session_runs Scenario.flaky_groq
                [Demo.follow_shorter; Scenario.follow_longer] Demo.fresh)).
Proof.
  apply (replies_always_follow_user nat Scenario.flaky_groq
           [Demo.follow_shorter; Scenario.follow_longer] Demo.fresh).
  intros [|i] m H; discriminate.
Defined.

Lemma reliable_client_pairs_witness :
  exists more,
    history (session_runs Demo.steady_groq
               [Demo.polish_hello; Demo.follow_shorter] Demo.fresh)
    = exchanges ([] ++ more).
Proof.
  apply (reliable_client_pairs nat Demo.steady_groq
           [Demo.polish_hello; Demo.follow_shorter] Demo.fresh []).
  - intros model p s. eexists. eexists. reflexivity.
  - reflexivity.
Defined.

Lemma idle_runs_keep_state_witness :
  history (session_runs Demo.steady_groq
             [Scenario.pick_model; Scenario.pick_model] Demo.after_A)
  = history Demo.after_A
  /\ service (session_runs Demo.steady_groq
                [Scenario.pick_model; Scenario.pick_model] Demo.after_A) = 1.
Proof.
  destruct (idle_runs_keep_state nat Demo.steady_groq
              [Scenario.pick_model; Scenario.pick_model] Demo.after_A) as (H1 & H2 & _).
  - repeat constructor.
  - split; [exact H1 | exact H2].
Defined.

Lemma article_box_unread_once_stored_witness :
  script Demo.steady_groq Scenario.stale_click Demo.after_A
  = script Demo.steady_groq Demo.follow_shorter Demo.after_A.
Proof.
  apply (article_box_unread_once_stored nat Demo.steady_groq
           Scenario.stale_click Demo.follow_shorter Demo.after_A).
  - discriminate.
  - reflexivity.
  - reflexivity.
Defined.

Lemma refinement_chains_witness :
  history (snd (script Demo.steady_groq Scenario.follow_longer
                  (snd (script Demo.steady_groq Demo.follow_shorter Demo.after_A))))
  = [ user_msg (lit "Hello world."); assistant_msg (lit "A");
      user_msg (lit "make it shorter"); assistant_msg (lit "polished");
      user_msg (lit "make it longer"); assistant_msg (lit "polished") ].
Proof.
  destruct (refinement_chains nat Demo.steady_groq Demo.follow_shorter
              Scenario.follow_longer Demo.after_A
              (lit "make it shorter") (lit "make it longer")
              Demo.polished 2 (inr Demo.polished) 3) as [_ E].
  - left. discriminate.
  - reflexivity.
  - discriminate.
  - reflexivity.
  - reflexivity.
  - discriminate.
  - reflexivity.
  - rewrite E. reflexivity.
Defined.

Lemma follow_up_after_failure_witness :
  history (snd (script Scenario.flaky_groq Scenario.follow_longer
                  (snd (script Scenario.flaky_groq Demo.follow_shorter
                          Scenario.before_outage))))
  = [ user_msg (lit "Hello world."); assistant_msg (lit "A");
      user_msg (lit "make it shorter"); user_msg (lit "make it longer");
      assistant_msg (lit "polished") ].
Proof.
  destruct (follow_up_after_failure nat Scenario.flaky_groq Demo.follow_shorter
              Scenario.follow_longer Scenario.before_outage
              (lit "make it shorter") (lit "make it longer")
              (ClientError (lit "timeout")) 1 Demo.polished 2) as (_ & _ & E).
  - left. discriminate.
  - reflexivity.
  - discriminate.
  - reflexivity.
  - reflexivity.
  - discriminate.
  - reflexivity.
  - rewrite E. reflexivity.
Defined.

Lemma initial_turn_retry_witness :
  history (snd (script Scenario.flaky_groq Demo.polish_hello
                  (snd (script Scenario.flaky_groq Demo.polish_hello Demo.fresh))))
  = [ user_msg (lit "Hello world."); assistant_msg (lit "polished") ].
Proof.
  destruct (initial_turn_retry nat Scenario.flaky_groq Demo.polish_hello Demo.polish_hello
              Demo.fresh (ClientError (lit "timeout")) 1 Demo.polished 2) as (_ & _ & E).
  - reflexivity.
  - reflexivity.
  - vm_compute. discriminate.
  - reflexivity.
  - reflexivity.
  - reflexivity.
  - vm_compute. discriminate.
  - reflexivity.
  - reflexivity.
  - exact E.
Defined.

Lemma display_shows_store_witness :
  log (snd (display_block Demo.after_A))
  = [ EWrite (lit "user") (lit "Hello world."); EWrite (lit "assistant") (lit "A") ].
Proof.
  unfold Demo.after_A.
  rewrite (display_shows_store nat
             [user_msg (lit "Hello world."); assistant_msg (lit "A")] 1 []).
  - reflexivity.
  - constructor; [left; reflexivity|]. constructor; [right; reflexivity|]. constructor.
Defined.

(** With no key in the environment the page stops at once; with the key
    [gsk] the article is polished. *)
Lemma page_needs_key_witness :
  page Scenario.keyed_groq Scenario.no_env Demo.polish_hello Demo.fresh
  = (Halted KEY_ERROR, Demo.fresh)
  /\ history (snd (page Scenario.keyed_groq Scenario.env_with_key
                     Demo.polish_hello Demo.fresh))
     = [ user_msg (lit "Hello world."); assistant_msg (lit "polished") ].
Proof.
  split.
  - apply (page_needs_key nat Scenario.keyed_groq Scenario.no_env
             Demo.polish_hello Demo.fresh).
    left. reflexivity.
  - destruct (page_needs_key nat Scenario.keyed_groq Scenario.env_with_key
                Demo.polish_hello Demo.fresh) as (_ & _ & H).
    destruct (H (lit "gsk") eq_refl) as [E _]; [discriminate|].
    rewrite E. reflexivity.
Defined.
